(** * compodoc-issue-check.service.ts: the configuration-access service

    A shallow embedding of [ExampleService] (the full class of
    [src/compodoc-issue-check.service.ts] and the getter-only class of the
    second source file) over a model of the JavaScript store:
    configuration objects live in a heap and are reached by reference, so
    that two services handed the same object really share it.

    [ConfigurationToken] only names, for the framework's injector, the
    value to pass to the constructor; with [@Optional()] that value is
    [null] when nothing is provided. The injector is not part of this
    repository: the constructor's argument is taken as given.

    The constructor's parameter has type [any]. An object passed as
    configuration is an ordinary object with all that comes with it: a
    prototype chain, data properties that may be read-only, accessor
    properties whose getter and setter are code of the caller, and an
    extensibility flag (so frozen, sealed and inheriting objects are all
    there). An [ExampleService] passed as configuration to another is, to
    that other, such an object: its [exampleOption] is an accessor it
    inherits from the class. So is, for the one key the service uses, a
    [Proxy]: its traps are code of the caller like any getter and setter. *)

From stdpp Require Import base option gmap strings list.

(** ** Values and the store *)

Definition loc := positive.

(** A function of the caller, named; here only accessors are ever called. *)
Definition fn := positive.

(** What a binding of TypeScript type [any] can hold. The service never
    inspects the payload of a primitive. *)
Inductive value : Type :=
| VUndefined
| VNull
| VBool (b : bool)
| VNumber (n : Z)
| VString (s : string)
| VRef (l : loc).

Global Instance value_eq_dec : EqDecision value.
Proof. solve_decision. Defined.

Global Instance value_inhabited : Inhabited value := populate VUndefined.

(** A property of an object: a value with its [writable] attribute, or a
    getter and a setter, either of which may be missing. *)
Inductive property : Type :=
| Data (v : value) (writable : bool)
| Accessor (get set : option fn).

Global Instance property_eq_dec : EqDecision property.
Proof. solve_decision. Defined.

(** An ordinary object: its prototype ([None] where the chain ends, or goes
    on through objects that have none of the properties looked for), whether
    properties may be added to it, and its own properties. *)
Record object : Type := Object {
  proto : option loc;
  extensible : bool;
  props : gmap string property
}.

(** The object literal [{ k1: v1, ... }]. *)
Definition literal (fields : gmap string value) : object :=
  {| proto := None; extensible := true;
     props := (λ v, Data v true) <$> fields |}.

(** [Object.freeze] of an object. *)
Definition freeze (o : object) : object :=
  {| proto := proto o; extensible := false;
     props := (λ p, match p with
                    | Data v _ => Data v false
                    | Accessor g s => Accessor g s
                    end) <$> props o |}.

Definition with_property (o : object) (k : string) (p : property) : object :=
  {| proto := proto o; extensible := extensible o;
     props := <[k := p]> (props o) |}.

(** An [ExampleService] instance: the one field the constructor's parameter
    property declares. *)
Record ExampleService : Type := Instance { injectedConfig : value }.

Global Instance ExampleService_eq_dec : EqDecision ExampleService.
Proof. solve_decision. Defined.

(** The store: the objects, the service instances the caller holds, and
    what has been written to the console. *)
Record state : Type := State {
  heap : gmap loc object;
  services : gmap loc ExampleService;
  console : list value
}.

Definition set_heap (f : gmap loc object → gmap loc object) (σ : state) : state :=
  {| heap := f (heap σ); services := services σ; console := console σ |}.

Definition set_services (f : gmap loc ExampleService → gmap loc ExampleService)
    (σ : state) : state :=
  {| heap := heap σ; services := f (services σ); console := console σ |}.

Definition set_console (f : list value → list value) (σ : state) : state :=
  {| heap := heap σ; services := services σ; console := f (console σ) |}.

(** ** Completions and the evaluation monad *)

Inductive exn : Type := TypeError.

Inductive completion (A : Type) : Type :=
| Normal (a : A)
| Throw (e : exn).
Global Arguments Normal {A} a.
Global Arguments Throw {A} e.

(** A computation runs in a store and yields a completion and the store it
    leaves; [None] is for a store that is no JavaScript store (a reference
    to nothing, a prototype chain that comes back on itself, a method called
    on something that is no instance). *)
Definition M (A : Type) : Type := state → option (completion A * state).

Definition ret {A} (a : A) : M A := λ σ, Some (Normal a, σ).

Definition throw {A} (e : exn) : M A := λ σ, Some (Throw e, σ).

Definition bind {A B} (m : M A) (k : A → M B) : M B := λ σ,
  match m σ with
  | Some (Normal a, σ') => k a σ'
  | Some (Throw e, σ') => Some (Throw e, σ')
  | None => None
  end.

Declare Scope js_scope.
Delimit Scope js_scope with js.
Notation "'let*' x ':=' m 'in' k" := (bind m (λ x, k))
  (at level 10, x name, m at level 100, k at level 200,
   format "'[v' 'let*'  x  :=  m  'in'  '/' k ']'") : js_scope.
Notation "m '>>' k" := (bind m (λ _, k))
  (at level 100, k at level 200, right associativity) : js_scope.
Local Open Scope js_scope.

(** The code of the caller's functions: what a call of [f] with a [this]
    and arguments does. Nothing is assumed of it. *)
Class Foreign : Type := code : fn → value → list value → M value.

(** ** Primitive operations of the language *)

(** The property [k] as the object at [l] has it, its own or else the first
    one up the prototype chain; [n] bounds the steps up the chain. *)
Fixpoint find_property (n : nat) (h : gmap loc object) (l : loc) (k : string)
    : option (option property) :=
  match h !! l with
  | None => None
  | Some obj =>
      match props obj !! k with
      | Some p => Some (Some p)
      | None =>
          match proto obj with
          | None => Some None
          | Some l' =>
              match n with
              | O => None
              | S n' => find_property n' h l' k
              end
          end
      end
  end.

(** A chain without a cycle has no more steps than there are objects. *)
Definition lookup_property (h : gmap loc object) (l : loc) (k : string)
    : option (option property) :=
  find_property (size h) h l k.

(** What [o.k = v] comes to on an object, in strict code. *)
Inductive assignment : Type :=
| Stores            (* the value becomes an own data property *)
| Refused           (* TypeError *)
| Runs (f : fn).    (* the setter is called *)

Definition assignment_to (h : gmap loc object) (l : loc) (k : string)
    : option assignment :=
  match h !! l with
  | None => None
  | Some obj =>
      match lookup_property h l k with
      | None => None
      | Some (Some (Accessor _ (Some f))) => Some (Runs f)
      | Some (Some (Accessor _ None)) => Some Refused
      | Some (Some (Data _ false)) => Some Refused
      | Some (Some (Data _ true)) | Some None =>
          if bool_decide (is_Some (props obj !! k)) || extensible obj
          then Some Stores else Some Refused
      end
  end.

(** [o.k] *)
Definition get_property `{F : Foreign} (o : value) (k : string) : M value :=
  match o with
  | VUndefined | VNull => throw TypeError
  | VBool _ | VNumber _ | VString _ => ret VUndefined
  | VRef l => λ σ,
      match lookup_property (heap σ) l k with
      | None => None
      | Some (Some (Data v _)) => Some (Normal v, σ)
      | Some (Some (Accessor (Some g) _)) => code g (VRef l) [] σ
      | Some (Some (Accessor None _)) | Some None => Some (Normal VUndefined, σ)
      end
  end.

(** [o.k = v], in strict code (a module is strict code) *)
Definition set_property `{F : Foreign} (o : value) (k : string) (v : value)
    : M unit :=
  match o with
  | VUndefined | VNull => throw TypeError
  | VBool _ | VNumber _ | VString _ => throw TypeError
  | VRef l => λ σ,
      match heap σ !! l, assignment_to (heap σ) l k with
      | Some obj, Some Stores =>
          Some (Normal (),
                set_heap <[l := with_property obj k (Data v true)]> σ)
      | Some obj, Some Refused => Some (Throw TypeError, σ)
      | Some obj, Some (Runs f) => (code f (VRef l) [v] >> ret ()) σ
      | _, _ => None
      end
  end.

(** [console.log(v)] *)
Definition console_log (v : value) : M unit := λ σ,
  Some (Normal (), set_console (λ out, out ++ [v]) σ).

(** [this.injectedConfig] *)
Definition read_injectedConfig (this : loc) : M value := λ σ,
  match services σ !! this with
  | Some s => Some (Normal (injectedConfig s), σ)
  | None => None
  end.

(** [new]: a fresh instance whose parameter property is already assigned,
    as it is before the constructor's body runs. *)
Definition alloc_instance (cfg : value) : M loc := λ σ,
  let this := fresh (dom (services σ)) in
  Some (Normal this, set_services <[this := Instance cfg]> σ).

(** ** The service of src/compodoc-issue-check.service.ts *)

Module Service.

(** [constructor(@Optional() @Inject(ConfigurationToken)
                 private readonly injectedConfig: any)
      { console.log(this.injectedConfig); }] *)
Definition constructor (injectedConfig : value) : M loc :=
  let* this := alloc_instance injectedConfig in
  let* c := read_injectedConfig this in
  console_log c >>
  ret this.

(** [get exampleOption(): string
      { return this.injectedConfig.exampleOption; }] *)
Definition get_exampleOption `{F : Foreign} (this : loc) : M value :=
  let* c := read_injectedConfig this in
  get_property c "exampleOption".

(** [set exampleOption(value: string)
      { this.injectedConfig.exampleOption = value; }] *)
Definition set_exampleOption `{F : Foreign} (this : loc) (value : value)
    : M unit :=
  let* c := read_injectedConfig this in
  set_property c "exampleOption" value.

(** [getExampleOption(): string { return this.exampleOption; }] *)
Definition getExampleOption `{F : Foreign} (this : loc) : M value :=
  get_exampleOption this.

End Service.

(** ** The service of the second source file (constructor and getter only) *)

Module Variant.

(** The same constructor, lines 103-109 of that file. *)
Definition constructor (injectedConfig : value) : M loc :=
  let* this := alloc_instance injectedConfig in
  let* c := read_injectedConfig this in
  console_log c >>
  ret this.

(** [get exampleOption(): string
      { return this.injectedConfig.exampleOption; }], lines 137-139 of
    that file; the class ends there. *)
Definition get_exampleOption `{F : Foreign} (this : loc) : M value :=
  let* c := read_injectedConfig this in
  get_property c "exampleOption".

End Variant.

(** ** Callers: sequences of accessor invocations *)

(** One accessor invocation, as an expression of the caller. *)
Inductive op : Type :=
| Get                 (* [s.exampleOption] *)
| Put (v : value)     (* [s.exampleOption = v] *)
| GetMethod.          (* [s.getExampleOption()] *)

(** The value of the expression; an assignment has the value assigned. *)
Definition call `{F : Foreign} (this : loc) (o : op) : M value :=
  match o with
  | Get => Service.get_exampleOption this
  | Put v => Service.set_exampleOption this v >> ret v
  | GetMethod => Service.getExampleOption this
  end.

(** A caller that invokes accessors one after the other on any instances,
    goes on after an error, and records every completion. *)
Fixpoint run `{F : Foreign} (ops : list (loc * op)) (σ : state)
    : option (list (completion value) * state) :=
  match ops with
  | [] => Some ([], σ)
  | (this, o) :: ops' =>
      match call this o σ with
      | Some (r, σ') =>
          match run ops' σ' with
          | Some (rs, σ'') => Some (r :: rs, σ'')
          | None => None
          end
      | None => None
      end
  end.

Definition absent (v : value) : Prop := v = VNull ∨ v = VUndefined.

(** A value that is neither absent nor an object. *)
Definition primitive (v : value) : Prop :=
  match v with
  | VBool _ | VNumber _ | VString _ => True
  | VUndefined | VNull | VRef _ => False
  end.

(** The values a caller's invocations assign, in order. *)
Definition written (ops : list op) : list value :=
  omap (λ o, match o with Put v => Some v | Get | GetMethod => None end) ops.

(** The store right after [new ExampleService(cfg)] in [σ]. *)
Definition constructed (cfg : value) (σ : state) : loc * state :=
  let this := fresh (dom (services σ)) in
  (this, set_console (λ out, out ++ [cfg])
           (set_services <[this := Instance cfg]> σ)).

(** The getter and the setter that a read and a write of a property found
    as [q] would call. *)
Definition getter_of (q : option property) : option fn :=
  match q with Some (Accessor g _) => g | _ => None end.

Definition setter_of (q : option property) : option fn :=
  match q with Some (Accessor _ s) => s | _ => None end.

(** What a read of a property found as [q] gives when no getter is called. *)
Definition value_of (q : option property) : value :=
  match q with Some (Data v _) => v | _ => VUndefined end.

(** The object at [l] is there, its chain ends, and neither a read nor a
    write of [k] on it calls code of the caller. *)
Definition quiet (h : gmap loc object) (l : loc) (k : string) : Prop :=
  ∃ q, lookup_property h l k = Some q
       ∧ getter_of q = None ∧ setter_of q = None.

(** A store in which every object held by an instance is quiet for
    [exampleOption]. *)
Definition well_formed (σ : state) : Prop :=
  ∀ s l, services σ !! s = Some (Instance (VRef l)) →
         quiet (heap σ) l "exampleOption".

(** What an object is apart from its [exampleOption]. *)
Definition rest (o : object) : option loc * bool * gmap string property :=
  (proto o, extensible o, delete "exampleOption" (props o)).

(** The store is as it was, or one object has had a value stored under
    [exampleOption]. *)
Definition at_most_stored (σ σ' : state) : Prop :=
  σ' = σ
  ∨ ∃ l obj v,
      heap σ !! l = Some obj
      ∧ σ' = set_heap
               <[l := with_property obj "exampleOption" (Data v true)]> σ.


(** ** The stores of the documented scenarios, and some others *)

(** [{ exampleOption: 'custom-value' }] *)
Definition custom_config : object :=
  literal {[ "exampleOption" := VString "custom-value" ]}.

(** The caller has made [{ exampleOption: 'custom-value' }]; no service yet. *)
Definition custom_store : state :=
  {| heap := {[ 1%positive := custom_config ]}; services := ∅; console := [] |}.

(** The caller has made [{}]; no service yet. *)
Definition empty_store : state :=
  {| heap := {[ 1%positive := literal ∅ ]}; services := ∅; console := [] |}.

(** Two services constructed one after the other over the object of
    [custom_store]. *)
Definition shared_store : state :=
  (constructed (VRef 1%positive)
     (constructed (VRef 1%positive) custom_store).2).2.

(** The caller has made two objects,
    [{ exampleOption: 'custom-value' }] and [{}], and a service over each. *)
Definition two_configs_store : state :=
  {| heap := {[ 1%positive := custom_config; 2%positive := literal ∅ ]};
     services := {[ 1%positive := Instance (VRef 1%positive);
                    2%positive := Instance (VRef 2%positive) ]};
     console := [VRef 1%positive; VRef 2%positive] |}.

(** [{ exampleOption: 'other-value' }] *)
Definition other_config : object :=
  literal {[ "exampleOption" := VString "other-value" ]}.

(** The caller has made [{ exampleOption: 'custom-value' }] and
    [{ exampleOption: 'other-value' }], and a service over each. *)
Definition two_custom_store : state :=
  {| heap := {[ 1%positive := custom_config; 2%positive := other_config ]};
     services := {[ 1%positive := Instance (VRef 1%positive);
                    2%positive := Instance (VRef 2%positive) ]};
     console := [VRef 1%positive; VRef 2%positive] |}.

(** The caller has made [Object.freeze({ exampleOption: 'custom-value' })]. *)
Definition frozen_store : state :=
  {| heap := {[ 1%positive := freeze custom_config ]};
     services := ∅; console := [] |}.

(** Two services constructed one after the other over the frozen object. *)
Definition frozen_shared_store : state :=
  (constructed (VRef 1%positive)
     (constructed (VRef 1%positive) frozen_store).2).2.

(** The caller has made [p = { exampleOption: 'inherited' }] and, at 2,
    [Object.create(p)]. *)
Definition inheriting_store : state :=
  {| heap := {[ 1%positive := literal {[ "exampleOption" := VString "inherited" ]};
                2%positive := {| proto := Some 1%positive; extensible := true;
                                 props := ∅ |} ]};
     services := ∅; console := [] |}.

(** The caller has made
    [{ n: 0,
       get exampleOption() { this.n = this.n + 1; return this.n; },
       set exampleOption(v) { this.other = v; } }]. *)
Definition counting_config : object :=
  {| proto := None; extensible := true;
     props := {[ "n" := Data (VNumber 0) true;
                 "exampleOption" := Accessor (Some 1%positive) (Some 2%positive) ]} |}.

Definition counting_store : state :=
  {| heap := {[ 1%positive := counting_config ]}; services := ∅; console := [] |}.

(** The two functions of [counting_config]: 1 is its getter, 2 its setter. *)
Definition counting_code : Foreign := λ f this args σ,
  match this with
  | VRef l =>
      match heap σ !! l with
      | Some obj =>
          if decide (f = 1%positive) then
            match props obj !! "n" with
            | Some (Data (VNumber n) true) =>
                Some (Normal (VNumber (n + 1)),
                      set_heap
                        <[l := with_property obj "n"
                                 (Data (VNumber (n + 1)) true)]> σ)
            | _ => None
            end
          else if decide (f = 2%positive) then
            match args with
            | [v] =>
                Some (Normal VUndefined,
                      set_heap
                        <[l := with_property obj "other" (Data v true)]> σ)
            | _ => None
            end
          else None
      | None => None
      end
  | _ => None
  end.

(** * Properties *)

(** ** Equations of the primitives *)

Section primitives.
Context `{F : Foreign} (σ : state).

Lemma bind_normal {A B} (m : M A) (k : A → M B) a σ' :
  m σ = Some (Normal a, σ') → bind m k σ = k a σ'.
Proof. unfold bind. by intros ->. Qed.

Lemma bind_throw {A B} (m : M A) (k : A → M B) e σ' :
  m σ = Some (Throw e, σ') → bind m k σ = Some (Throw e, σ').
Proof. unfold bind. by intros ->. Qed.

Lemma read_injectedConfig_held this cfg :
  services σ !! this = Some (Instance cfg) →
  read_injectedConfig this σ = Some (Normal cfg, σ).
Proof. unfold read_injectedConfig. by intros ->. Qed.

Lemma get_property_absent c k :
  absent c → get_property c k σ = Some (Throw TypeError, σ).
Proof. by intros [-> | ->]. Qed.

Lemma set_property_absent c k v :
  absent c → set_property c k v σ = Some (Throw TypeError, σ).
Proof. by intros [-> | ->]. Qed.

Lemma constructor_constructed cfg :
  Service.constructor cfg σ
  = Some (Normal (constructed cfg σ).1, (constructed cfg σ).2).
Proof.
  unfold Service.constructor, alloc_instance, read_injectedConfig, bind.
  simpl. by rewrite lookup_insert_eq.
Qed.

Lemma constructed_held cfg :
  services (constructed cfg σ).2 !! (constructed cfg σ).1
  = Some (Instance cfg).
Proof. simpl. by rewrite lookup_insert_eq. Qed.

Lemma constructed_fresh cfg : services σ !! (constructed cfg σ).1 = None.
Proof. simpl. apply not_elem_of_dom, is_fresh. Qed.

Lemma constructed_heap cfg : heap (constructed cfg σ).2 = heap σ.
Proof. done. Qed.

End primitives.

(** ** Looking a property up *)

Section chain.
Context (h : gmap loc object) (k : string).

Lemma find_property_unfold n l :
  find_property n h l k
  = match h !! l with
    | None => None
    | Some obj =>
        match props obj !! k with
        | Some p => Some (Some p)
        | None =>
            match proto obj with
            | None => Some None
            | Some l' =>
                match n with
                | O => None
                | S n' => find_property n' h l' k
                end
            end
        end
    end.
Proof. by destruct n. Qed.

Lemma find_property_own n l obj p :
  h !! l = Some obj → props obj !! k = Some p →
  find_property n h l k = Some (Some p).
Proof. intros Hl Hp. by rewrite find_property_unfold, Hl, Hp. Qed.


Lemma find_property_there n l q :
  find_property n h l k = Some q → is_Some (h !! l).
Proof. rewrite find_property_unfold. by destruct (h !! l). Qed.

Lemma lookup_property_own l obj p :
  h !! l = Some obj → props obj !! k = Some p →
  lookup_property h l k = Some (Some p).
Proof. apply find_property_own. Qed.


(** An assignment that calls no setter stores or is refused. *)
Lemma assignment_to_quiet l q :
  lookup_property h l k = Some q → setter_of q = None →
  assignment_to h l k = Some Stores ∨ assignment_to h l k = Some Refused.
Proof.
  intros Hq Hset. unfold assignment_to.
  destruct (find_property_there _ _ _ Hq) as [obj ->]. rewrite Hq.
  destruct q as [[v [|]|g [f|]]|]; simpl in Hset; try done;
    try (by right); by destruct (_ || _); [left | right].
Qed.

Lemma assignment_to_own_writable l obj v :
  h !! l = Some obj → props obj !! k = Some (Data v true) →
  assignment_to h l k = Some Stores.
Proof.
  intros Hl Hp. unfold assignment_to.
  rewrite Hl, (lookup_property_own l obj _ Hl Hp).
  rewrite bool_decide_eq_true_2; [done|]. by rewrite Hp.
Qed.

Lemma assignment_to_there l a :
  assignment_to h l k = Some a → is_Some (h !! l).
Proof. unfold assignment_to. by destruct (h !! l). Qed.

(** What is found where the assignment stores. *)
Lemma assignment_to_stores_found l :
  assignment_to h l k = Some Stores →
  ∃ q, lookup_property h l k = Some q
       ∧ getter_of q = None ∧ setter_of q = None.
Proof.
  unfold assignment_to. destruct (h !! l) as [obj|]; [|done].
  destruct (lookup_property h l k) as [[[v [|]|g [f|]]|]|]; try done;
    intros _; by eexists.
Qed.

End chain.

(** ** What a stored value does to the lookups *)

Section stored.
Context (h : gmap loc object) (k : string) (l0 : loc) (obj0 : object)
        (v : value).
Hypothesis Hl0 : h !! l0 = Some obj0.

Let h' : gmap loc object := <[l0 := with_property obj0 k (Data v true)]> h.

Lemma stored_size : size h' = size h.
Proof using Hl0. apply map_size_insert_Some. by eexists. Qed.

Lemma stored_own : lookup_property h' l0 k = Some (Some (Data v true)).
Proof.
  apply (lookup_property_own _ _ _ (with_property obj0 k (Data v true)));
    [apply lookup_insert_eq | apply lookup_insert_eq].
Qed.

Lemma stored_assignment : assignment_to h' l0 k = Some Stores.
Proof.
  apply (assignment_to_own_writable _ _ _
           (with_property obj0 k (Data v true)) v);
    [apply lookup_insert_eq | apply lookup_insert_eq].
Qed.

(** Up any chain, what was found is found still, unless the stored value
    now comes first. *)
Lemma stored_find n : ∀ l q,
  find_property n h l k = Some q →
  find_property n h' l k = Some q
  ∨ find_property n h' l k = Some (Some (Data v true)).
Proof using Hl0.
  induction n as [|n IH]; intros l q; rewrite !find_property_unfold.
  - destruct (decide (l = l0)) as [->|Hne].
    + subst h'. rewrite lookup_insert_eq. simpl. rewrite lookup_insert_eq.
      by right.
    + subst h'. rewrite lookup_insert_ne by done.
      destruct (h !! l) as [obj|]; [|done].
      destruct (props obj !! k); [by left|].
      destruct (proto obj); [done | by left].
  - destruct (decide (l = l0)) as [->|Hne].
    + subst h'. rewrite lookup_insert_eq. simpl. rewrite lookup_insert_eq.
      by right.
    + subst h'. rewrite lookup_insert_ne by done.
      destruct (h !! l) as [obj|]; [|done].
      destruct (props obj !! k); [by left|].
      destruct (proto obj) as [l'|]; [apply IH | by left].
Qed.

Lemma stored_quiet l : quiet h l k → quiet h' l k.
Proof using Hl0.
  intros (q & Hq & Hg & Hs). unfold quiet, lookup_property in *.
  rewrite stored_size.
  destruct (stored_find _ _ _ Hq) as [-> | ->]; by eexists.
Qed.


End stored.

(** ** Reading and writing a property of an object *)

Section access.
Context `{F : Foreign} (σ : state) (l : loc) (k : string).

Lemma get_property_found q :
  lookup_property (heap σ) l k = Some q → getter_of q = None →
  get_property (VRef l) k σ = Some (Normal (value_of q), σ).
Proof.
  intros Hq Hg. simpl. rewrite Hq.
  by destruct q as [[v w|[g|] s]|].
Qed.


Lemma set_property_stores obj v :
  heap σ !! l = Some obj → assignment_to (heap σ) l k = Some Stores →
  set_property (VRef l) k v σ
  = Some (Normal (), set_heap <[l := with_property obj k (Data v true)]> σ).
Proof. intros Hl Ha. simpl. by rewrite Hl, Ha. Qed.

Lemma set_property_refused v :
  assignment_to (heap σ) l k = Some Refused →
  set_property (VRef l) k v σ = Some (Throw TypeError, σ).
Proof.
  intros Ha. simpl. destruct (assignment_to_there _ _ _ _ Ha) as [obj Hl].
  by rewrite Hl, Ha.
Qed.

(** Where no setter is called, a write is refused and changes nothing, or
    stores. *)
Lemma set_property_quiet q v :
  lookup_property (heap σ) l k = Some q → setter_of q = None →
  set_property (VRef l) k v σ = Some (Throw TypeError, σ)
  ∨ ∃ obj, heap σ !! l = Some obj
           ∧ assignment_to (heap σ) l k = Some Stores
           ∧ set_property (VRef l) k v σ
             = Some (Normal (),
                     set_heap <[l := with_property obj k (Data v true)]> σ).
Proof.
  intros Hq Hs.
  destruct (assignment_to_quiet _ _ _ _ Hq Hs) as [Ha | Ha].
  - right. destruct (assignment_to_there _ _ _ _ Ha) as [obj Hl].
    exists obj. split_and!; [done..|]. by apply set_property_stores.
  - left. by apply set_property_refused.
Qed.

End access.

(** ** The accessors go straight to the held value *)

Section held.
Context `{F : Foreign} (σ : state) (this : loc) (cfg : value).
Hypothesis Hthis : services σ !! this = Some (Instance cfg).

Lemma get_exampleOption_held :
  Service.get_exampleOption this σ = get_property cfg "exampleOption" σ.
Proof using Hthis.
  unfold Service.get_exampleOption.
  by erewrite bind_normal by (by apply read_injectedConfig_held).
Qed.

Lemma set_exampleOption_held v :
  Service.set_exampleOption this v σ = set_property cfg "exampleOption" v σ.
Proof using Hthis.
  unfold Service.set_exampleOption.
  by erewrite bind_normal by (by apply read_injectedConfig_held).
Qed.

End held.

(** ** The accessors on an instance that holds an object *)

Section configured.
Context `{F : Foreign} (σ : state) (this l : loc).
Hypothesis Hthis : services σ !! this = Some (Instance (VRef l)).

Lemma get_configured q :
  lookup_property (heap σ) l "exampleOption" = Some q →
  getter_of q = None →
  Service.get_exampleOption this σ = Some (Normal (value_of q), σ).
Proof using Hthis.
  intros Hq Hg. erewrite get_exampleOption_held by done.
  by apply get_property_found.
Qed.

Lemma get_own_data obj v w :
  heap σ !! l = Some obj →
  props obj !! "exampleOption" = Some (Data v w) →
  Service.get_exampleOption this σ = Some (Normal v, σ).
Proof using Hthis.
  intros Hl Hp.
  by apply (get_configured (Some (Data v w))); [eapply lookup_property_own|].
Qed.

Lemma set_configured obj v :
  heap σ !! l = Some obj →
  assignment_to (heap σ) l "exampleOption" = Some Stores →
  Service.set_exampleOption this v σ
  = Some (Normal (),
          set_heap <[l := with_property obj "exampleOption" (Data v true)]> σ).
Proof using Hthis.
  intros Hl Ha. erewrite set_exampleOption_held by done.
  by apply set_property_stores.
Qed.


End configured.

(** After a write that stored, an instance over the object reads the value
    stored. *)
Lemma get_stored `{F : Foreign} (σ : state) (this l : loc) (obj : object)
    (v : value) :
  services σ !! this = Some (Instance (VRef l)) →
  let σ' :=
    set_heap <[l := with_property obj "exampleOption" (Data v true)]> σ in
  Service.get_exampleOption this σ' = Some (Normal v, σ').
Proof.
  intros Hthis σ'.
  apply (get_own_data σ' this l Hthis
           (with_property obj "exampleOption" (Data v true)) v true);
    apply lookup_insert_eq.
Qed.

(** ** The accessors on an instance that holds no configuration *)

Section unconfigured.
Context `{F : Foreign} (σ : state) (this : loc) (cfg : value).
Hypothesis Hthis : services σ !! this = Some (Instance cfg).
Hypothesis Habsent : absent cfg.

Lemma get_unconfigured :
  Service.get_exampleOption this σ = Some (Throw TypeError, σ).
Proof using Hthis Habsent.
  erewrite get_exampleOption_held by done. by apply get_property_absent.
Qed.

Lemma set_unconfigured v :
  Service.set_exampleOption this v σ = Some (Throw TypeError, σ).
Proof using Hthis Habsent.
  erewrite set_exampleOption_held by done. by apply set_property_absent.
Qed.

Lemma call_unconfigured o : call this o σ = Some (Throw TypeError, σ).
Proof using Hthis Habsent.
  destruct o; simpl; unfold Service.getExampleOption;
    [apply get_unconfigured | | apply get_unconfigured].
  erewrite bind_throw; [done | apply set_unconfigured].
Qed.

End unconfigured.

(** ** What an accessor call can do to the store *)

Section steps.
Context `{F : Foreign}.

Lemma at_most_stored_store σ σ' :
  at_most_stored σ σ' →
  services σ' = services σ ∧ console σ' = console σ
  ∧ dom (heap σ') = dom (heap σ).
Proof.
  intros [-> | (l & obj & v & Hl & ->)]; [done|]. simpl.
  split_and!; [done..|]. rewrite dom_insert_L.
  apply subseteq_union_1_L, singleton_subseteq_l. by eapply elem_of_dom_2.
Qed.

Lemma at_most_stored_rest σ σ' l :
  at_most_stored σ σ' → rest <$> heap σ' !! l = rest <$> heap σ !! l.
Proof.
  intros [-> | (l0 & obj & v & Hl & ->)]; [done|]. simpl.
  destruct (decide (l = l0)) as [->|Hne].
  - rewrite lookup_insert_eq, Hl. unfold rest. simpl.
    by rewrite delete_insert_eq.
  - by rewrite lookup_insert_ne.
Qed.

Lemma at_most_stored_well_formed σ σ' :
  at_most_stored σ σ' → well_formed σ → well_formed σ'.
Proof.
  intros [-> | (l0 & obj & v & Hl & ->)] Hwf; [done|].
  intros s l Hs. simpl in *. apply stored_quiet; [done|]. by eapply Hwf.
Qed.

(** On an instance whose configuration calls no code of the caller, every
    invocation completes, and at most stores. *)
Lemma call_quiet this o σ cfg :
  services σ !! this = Some (Instance cfg) →
  (∀ l, cfg = VRef l → quiet (heap σ) l "exampleOption") →
  ∃ r σ', call this o σ = Some (r, σ') ∧ at_most_stored σ σ'.
Proof.
  intros Hthis Hquiet.
  assert (∃ r, Service.get_exampleOption this σ = Some (r, σ)) as [rg Hget].
  { erewrite get_exampleOption_held by done.
    destruct cfg as [| | | | |l]; try by eexists.
    destruct (Hquiet l eq_refl) as (q & Hq & Hg & _).
    eexists. by apply get_property_found. }
  assert (∀ v, ∃ r σ', Service.set_exampleOption this v σ = Some (r, σ')
                       ∧ at_most_stored σ σ') as Hset.
  { intros v. erewrite set_exampleOption_held by done.
    destruct cfg as [| | | | |l]; try (eexists _, σ; split; [done|by left]).
    destruct (Hquiet l eq_refl) as (q & Hq & _ & Hs).
    destruct (set_property_quiet σ l "exampleOption" q v Hq Hs)
      as [-> | (obj & Hl & _ & ->)].
    - eexists _, σ. split; [done | by left].
    - eexists _, _. split; [done|]. right. by exists l, obj, v. }
  destruct o as [|v|]; simpl; unfold Service.getExampleOption.
  - exists rg, σ. split; [done | by left].
  - destruct (Hset v) as ([[]|e] & σ' & Hv & Hstep).
    + exists (Normal v), σ'. by erewrite bind_normal.
    + exists (Throw e), σ'. by erewrite bind_throw.
  - exists rg, σ. split; [done | by left].
Qed.

Lemma run_quiet ops : ∀ σ,
  well_formed σ →
  Forall (λ c, is_Some (services σ !! c.1)) ops →
  ∃ rs σ',
    run ops σ = Some (rs, σ')
    ∧ length rs = length ops
    ∧ well_formed σ'
    ∧ services σ' = services σ ∧ console σ' = console σ
    ∧ dom (heap σ') = dom (heap σ)
    ∧ ∀ l, rest <$> heap σ' !! l = rest <$> heap σ !! l.
Proof.
  induction ops as [|[this o] ops IH]; intros σ Hwf Hops; simpl.
  { by exists [], σ. }
  apply Forall_cons in Hops as [[[cfg] Hthis] Hops]. simpl in Hthis.
  destruct (call_quiet this o σ cfg Hthis) as (r & σ1 & -> & Hstep).
  { intros l ->. by eapply Hwf. }
  destruct (at_most_stored_store _ _ Hstep) as (Hs & Hc & Hd).
  destruct (IH σ1) as (rs & σ2 & -> & Hlen & Hwf2 & Hs2 & Hc2 & Hd2 & Hr2).
  { by eapply at_most_stored_well_formed. }
  { by rewrite Hs. }
  exists (r :: rs), σ2. split; [done|]. simpl.
  split; [by rewrite Hlen|]. split; [done|].
  split; [congruence|]. split; [congruence|]. split; [congruence|].
  intros l. rewrite Hr2. by apply at_most_stored_rest.
Qed.



End steps.

(** ** Construction, then the accessors *)

Section after_construction.
Context `{F : Foreign} (σ : state) (cfg : value).

Let this : loc := (constructed cfg σ).1.
Let σ1 : state := (constructed cfg σ).2.

Lemma construct_then {A} (k : loc → M A) :
  (let* s := Service.constructor cfg in k s) σ = k this σ1.
Proof. apply bind_normal, constructor_constructed. Qed.

Lemma constructed_get :
  Service.get_exampleOption this σ1 = get_property cfg "exampleOption" σ1.
Proof. apply get_exampleOption_held, constructed_held. Qed.

Lemma constructed_set v :
  Service.set_exampleOption this v σ1
  = set_property cfg "exampleOption" v σ1.
Proof. apply set_exampleOption_held, constructed_held. Qed.

Lemma constructed_well_formed :
  well_formed σ →
  (∀ l, cfg = VRef l → quiet (heap σ) l "exampleOption") →
  well_formed σ1.
Proof.
  intros Hwf Hcfg s l. subst σ1. simpl. rewrite lookup_insert.
  case_decide; [|by apply Hwf]. intros ?; simplify_eq. by apply Hcfg.
Qed.

End after_construction.

(** C1 (read passthrough). For every configuration object [C] whose
    [exampleOption] field holds [v], constructing the service with [C] and
    then reading the [exampleOption] property returns exactly [v]; the
    objects are as they were. *)
Theorem read_passthrough `{F : Foreign} (σ : state) (l : loc) (C : object)
    (v : value) (w : bool) :
  heap σ !! l = Some C →
  props C !! "exampleOption" = Some (Data v w) →
  ∃ σ',
    (let* s := Service.constructor (VRef l) in
     Service.get_exampleOption s) σ = Some (Normal v, σ')
    ∧ heap σ' = heap σ.
Proof.
  intros Hl Hv. eexists. split; [|apply (constructed_heap σ (VRef l))].
  rewrite construct_then.
  by apply (get_own_data _ _ l (constructed_held σ (VRef l)) C v w).
Qed.

Lemma read_passthrough_scenario :
  ∃ σ',
    (let* s := Service.constructor (VRef 1%positive) in
     Service.get_exampleOption (F := counting_code) s) custom_store
    = Some (Normal (VString "custom-value"), σ')
    ∧ heap σ' = heap custom_store.
Proof.
  apply (read_passthrough custom_store 1%positive custom_config _ true);
    vm_compute; reflexivity.
Defined.

(** C2 (read after write). For every configuration
    object on which the assignment stores (its [exampleOption] is an own
    writable data property, or it has none of its own, may be extended, and
    inherits none or a writable data property) and every value [v2],
    constructing the service with it, writing [v2] through the setter and
    then reading, by the getter and by [getExampleOption], gives [v2] both
    times. *)
Theorem read_after_write `{F : Foreign} (σ : state) (l : loc) (v2 : value) :
  assignment_to (heap σ) l "exampleOption" = Some Stores →
  ∃ σ',
    (let* s := Service.constructor (VRef l) in
     Service.set_exampleOption s v2 >>
     let* a := Service.get_exampleOption s in
     let* b := Service.getExampleOption s in
     ret (a, b)) σ = Some (Normal (v2, v2), σ').
Proof.
  intros Ha. destruct (assignment_to_there _ _ _ _ Ha) as [C Hl]. eexists.
  rewrite construct_then.
  pose proof (constructed_held σ (VRef l)) as Hheld.
  set (s := (constructed (VRef l) σ).1) in *.
  set (σ1 := (constructed (VRef l) σ).2) in *.
  rewrite (bind_normal σ1 _ _ _ _ (set_configured σ1 s l Hheld C v2 Hl Ha)).
  pose proof (get_stored σ1 s l C v2 Hheld) as Hget. simpl in Hget.
  unfold Service.getExampleOption.
  rewrite (bind_normal _ _ _ _ _ Hget), (bind_normal _ _ _ _ _ Hget).
  reflexivity.
Qed.

Lemma read_after_write_scenario :
  ∃ σ',
    (let* s := Service.constructor (VRef 1%positive) in
     Service.set_exampleOption (F := counting_code) s (VString "new-value") >>
     let* a := Service.get_exampleOption (F := counting_code) s in
     let* b := Service.getExampleOption (F := counting_code) s in
     ret (a, b)) custom_store
    = Some (Normal (VString "new-value", VString "new-value"), σ').
Proof.
  apply (read_after_write custom_store 1%positive). vm_compute. reflexivity.
Defined.

(** C2 without that condition does not hold. On a frozen configuration
    object the write throws [TypeError], so the sequence does not get to its
    reads, and a read made afterwards gives the old value. *)
Lemma read_after_write_frozen :
  (let* s := Service.constructor (VRef 1%positive) in
   Service.set_exampleOption (F := counting_code) s (VString "new-value") >>
   let* a := Service.get_exampleOption (F := counting_code) s in
   let* b := Service.getExampleOption (F := counting_code) s in
   ret (a, b)) frozen_store
  = Some (Throw TypeError, (constructed (VRef 1%positive) frozen_store).2)
  ∧ Service.get_exampleOption (F := counting_code) 1%positive
      (constructed (VRef 1%positive) frozen_store).2
    = Some (Normal (VString "custom-value"),
            (constructed (VRef 1%positive) frozen_store).2).
Proof. split; vm_compute; reflexivity. Qed.

(** C3 (accessor equivalence). In every store and for every receiver,
    [getExampleOption] gives what the [exampleOption] getter gives: the same
    value, the same error, the same store afterwards. *)
Theorem getExampleOption_is_getter `{F : Foreign} (this : loc) (σ : state) :
  Service.getExampleOption this σ = Service.get_exampleOption this σ.
Proof. reflexivity. Qed.

(** C4 (missing configuration). A service constructed with [null] or
    [undefined] is constructed all the same, and from then on every
    invocation of an accessor on it (getter, setter, [getExampleOption]), in
    any order and any number of times, completes with the [TypeError] of the
    property access itself and leaves the store as it was. *)
Theorem missing_configuration `{F : Foreign} (cfg : value) (σ : state) :
  absent cfg →
  ∃ this σ1,
    Service.constructor cfg σ = Some (Normal this, σ1)
    ∧ ∀ ops : list op,
        run (pair this <$> ops) σ1
        = Some ((λ _, Throw TypeError) <$> ops, σ1).
Proof.
  intros Habsent. exists (constructed cfg σ).1, (constructed cfg σ).2.
  split; [apply constructor_constructed|].
  pose proof (constructed_held σ cfg) as Hheld.
  destruct (constructed cfg σ) as [this σ1]. simpl in Hheld |- *.
  induction ops as [|o ops IH]; [done|]. rewrite fmap_cons. simpl.
  erewrite call_unconfigured by done. by rewrite IH.
Qed.

Lemma missing_configuration_scenario :
  ∃ this σ1,
    Service.constructor VNull custom_store = Some (Normal this, σ1)
    ∧ ∀ ops : list op,
        run (F := counting_code) (pair this <$> ops) σ1
        = Some ((λ _, Throw TypeError) <$> ops, σ1).
Proof. apply (missing_configuration VNull custom_store). by left. Defined.

(** C5 (shared mutation). When two instances hold the
    same configuration object and the assignment stores on it, a write
    through the setter of the first changes that object in place, and the
    read accessors of the second give the value written. *)
Theorem shared_mutation `{F : Foreign} (σ : state) (s1 s2 l : loc)
    (C : object) (v : value) :
  services σ !! s1 = Some (Instance (VRef l)) →
  services σ !! s2 = Some (Instance (VRef l)) →
  heap σ !! l = Some C →
  assignment_to (heap σ) l "exampleOption" = Some Stores →
  ∃ σ',
    Service.set_exampleOption s1 v σ = Some (Normal (), σ')
    ∧ heap σ' !! l = Some (with_property C "exampleOption" (Data v true))
    ∧ Service.get_exampleOption s2 σ' = Some (Normal v, σ')
    ∧ Service.getExampleOption s2 σ' = Some (Normal v, σ').
Proof.
  intros Hs1 Hs2 Hl Ha. eexists. split; [by apply set_configured|].
  split; [apply lookup_insert_eq|].
  pose proof (get_stored σ s2 l C v Hs2) as Hget. done.
Qed.

Lemma shared_mutation_scenario :
  ∃ σ',
    Service.set_exampleOption (F := counting_code) 1%positive
      (VString "new-value") shared_store = Some (Normal (), σ')
    ∧ heap σ' !! 1%positive
      = Some (with_property custom_config "exampleOption"
                (Data (VString "new-value") true))
    ∧ Service.get_exampleOption (F := counting_code) 2%positive σ'
      = Some (Normal (VString "new-value"), σ')
    ∧ Service.getExampleOption (F := counting_code) 2%positive σ'
      = Some (Normal (VString "new-value"), σ').
Proof.
  apply (shared_mutation shared_store 1%positive 2%positive 1%positive
           custom_config);
    vm_compute; reflexivity.
Defined.

(** C5 without that condition does not hold. When the shared object is
    frozen the write through the first instance throws, and the second
    instance reads the old value. *)
Lemma shared_mutation_frozen :
  services frozen_shared_store !! 1%positive
  = Some (Instance (VRef 1%positive))
  ∧ services frozen_shared_store !! 2%positive
    = Some (Instance (VRef 1%positive))
  ∧ Service.set_exampleOption (F := counting_code) 1%positive
      (VString "new-value") frozen_shared_store
    = Some (Throw TypeError, frozen_shared_store)
  ∧ Service.get_exampleOption (F := counting_code) 2%positive
      frozen_shared_store
    = Some (Normal (VString "custom-value"), frozen_shared_store).
Proof. split_and!; vm_compute; reflexivity. Qed.

(** C6 (missing key). Constructing the service with a
    configuration object that has no [exampleOption], neither its own nor
    one it inherits, and then reading [exampleOption] returns [undefined],
    normally. *)
Theorem read_missing_key `{F : Foreign} (σ : state) (l : loc) :
  lookup_property (heap σ) l "exampleOption" = Some None →
  ∃ σ',
    (let* s := Service.constructor (VRef l) in
     Service.get_exampleOption s) σ = Some (Normal VUndefined, σ').
Proof.
  intros Hq. eexists. rewrite construct_then.
  by apply (get_configured _ _ l (constructed_held σ (VRef l)) None).
Qed.

Lemma read_missing_key_scenario :
  ∃ σ',
    (let* s := Service.constructor (VRef 1%positive) in
     Service.get_exampleOption (F := counting_code) s) empty_store
    = Some (Normal VUndefined, σ').
Proof.
  apply (read_missing_key empty_store 1%positive). vm_compute. reflexivity.
Defined.

(** C6 for a key that is only not the object's own does not hold. On an
    object that lacks the key itself but inherits it, the read gives the
    inherited value. *)
Lemma read_missing_key_inherited :
  (∃ C, heap inheriting_store !! 2%positive = Some C
        ∧ props C !! "exampleOption" = None)
  ∧ (let* s := Service.constructor (VRef 2%positive) in
     Service.get_exampleOption (F := counting_code) s) inheriting_store
    = Some (Normal (VString "inherited"),
            (constructed (VRef 2%positive) inheriting_store).2).
Proof.
  split; [eexists; split|]; vm_compute; reflexivity.
Qed.


Lemma custom_store_well_formed : well_formed custom_store.
Proof. intros s l Hs. simpl in Hs. by rewrite lookup_empty in Hs. Qed.


(** C8 (reads are pure). Where the read of
    [exampleOption] on the held configuration calls no getter of the
    caller, whenever the [exampleOption] getter or [getExampleOption]
    returns, the store it leaves is the store it was called in: the
    instances, the objects and the console are all unchanged. *)
Theorem read_accessors_pure `{F : Foreign} (this : loc) (σ σ' : state)
    (v : value) :
  (∀ l q, services σ !! this = Some (Instance (VRef l)) →
          lookup_property (heap σ) l "exampleOption" = Some q →
          getter_of q = None) →
  Service.get_exampleOption this σ = Some (Normal v, σ')
  ∨ Service.getExampleOption this σ = Some (Normal v, σ') →
  σ' = σ.
Proof.
  intros Hquiet Hget.
  assert (Service.get_exampleOption this σ = Some (Normal v, σ')) as H
    by (by destruct Hget).
  clear Hget. revert H.
  unfold Service.get_exampleOption, bind, read_injectedConfig.
  destruct (services σ !! this) as [[c]|] eqn:Hthis; [simpl | done].
  destruct c as [| | | | |l]; simpl; unfold throw, ret;
    try (intros ?; by simplify_eq).
  destruct (lookup_property (heap σ) l "exampleOption") as [q|] eqn:Hq;
    [|done].
  specialize (Hquiet l q eq_refl Hq).
  destruct q as [[u w|[g|] s]|]; simpl in Hquiet; try done;
    intros ?; by simplify_eq.
Qed.

Lemma read_accessors_pure_scenario :
  match Service.getExampleOption (F := counting_code) 2%positive
          shared_store with
  | Some (_, σ') => σ'
  | None => custom_store
  end = shared_store.
Proof.
  apply (read_accessors_pure (F := counting_code) 2%positive _ _
           (VString "custom-value")).
  - intros l q [= <-]. vm_compute. by intros [= <-].
  - right. vm_compute. reflexivity.
Defined.

(** C8 without that condition does not hold. On a configuration whose
    [exampleOption] is an accessor the read succeeds, and the getter it
    called has changed the held object ([n] went from 0 to 1). *)
Lemma read_accessors_pure_getter :
  ∃ σ',
    Service.get_exampleOption (F := counting_code) 1%positive
      (constructed (VRef 1%positive) counting_store).2
    = Some (Normal (VNumber 1), σ')
    ∧ (props <$> heap (constructed (VRef 1%positive) counting_store).2
                 !! 1%positive) ≫= (.!! "n")
      = Some (Data (VNumber 0) true)
    ∧ (props <$> heap σ' !! 1%positive) ≫= (.!! "n")
      = Some (Data (VNumber 1) true).
Proof. eexists. split_and!; vm_compute; reflexivity. Qed.

(** C9 (the setter's frame). On an instance that holds
    a configuration object whose [exampleOption] has no setter, the setter
    of the service completes, and afterwards the object has its prototype,
    its extensibility and, under every key other than [exampleOption], what
    it had before; every other object, every instance and the console are
    as they were. Where the assignment stores, the completion is normal and
    the object has the written value under [exampleOption]; where it is
    refused, the completion is the [TypeError] and nothing has changed. *)
Theorem setter_frame `{F : Foreign} (σ : state) (this l : loc) (C : object)
    (q : option property) (v : value) :
  services σ !! this = Some (Instance (VRef l)) →
  heap σ !! l = Some C →
  lookup_property (heap σ) l "exampleOption" = Some q →
  setter_of q = None →
  ∃ r σ' C',
    Service.set_exampleOption this v σ = Some (r, σ')
    ∧ heap σ' !! l = Some C'
    ∧ proto C' = proto C ∧ extensible C' = extensible C
    ∧ (∀ k, k ≠ "exampleOption" → props C' !! k = props C !! k)
    ∧ (∀ l', l' ≠ l → heap σ' !! l' = heap σ !! l')
    ∧ services σ' = services σ
    ∧ console σ' = console σ
    ∧ (assignment_to (heap σ) l "exampleOption" = Some Stores →
       r = Normal () ∧ props C' !! "exampleOption" = Some (Data v true))
    ∧ (assignment_to (heap σ) l "exampleOption" = Some Refused →
       r = Throw TypeError ∧ σ' = σ).
Proof.
  intros Hthis Hl Hq Hs.
  rewrite (set_exampleOption_held σ this _ Hthis).
  destruct (assignment_to_quiet _ _ _ _ Hq Hs) as [Ha | Ha].
  - rewrite (set_property_stores σ l _ C v Hl Ha).
    eexists _, _, _. split; [done|]. simpl.
    split; [apply lookup_insert_eq|]. simpl.
    split_and!; try done.
    + intros k Hk. by apply lookup_insert_ne.
    + intros l' Hl'. by apply lookup_insert_ne.
    + intros _. split; [done | apply lookup_insert_eq].
    + by rewrite Ha.
  - rewrite (set_property_refused σ l _ v Ha).
    exists (Throw TypeError), σ, C. split_and!; try done.
    by rewrite Ha.
Qed.

Lemma setter_frame_scenario :
  ∃ r σ' C',
    Service.set_exampleOption (F := counting_code) 1%positive
      (VString "new-value") shared_store = Some (r, σ')
    ∧ heap σ' !! 1%positive = Some C'
    ∧ proto C' = proto custom_config
    ∧ extensible C' = extensible custom_config
    ∧ (∀ k, k ≠ "exampleOption" → props C' !! k = props custom_config !! k)
    ∧ (∀ l', l' ≠ 1%positive → heap σ' !! l' = heap shared_store !! l')
    ∧ services σ' = services shared_store
    ∧ console σ' = console shared_store
    ∧ (assignment_to (heap shared_store) 1%positive "exampleOption"
       = Some Stores →
       r = Normal ()
       ∧ props C' !! "exampleOption" = Some (Data (VString "new-value") true))
    ∧ (assignment_to (heap shared_store) 1%positive "exampleOption"
       = Some Refused →
       r = Throw TypeError ∧ σ' = shared_store).
Proof.
  apply (setter_frame shared_store 1%positive 1%positive custom_config
           (Some (Data (VString "custom-value") true)));
    vm_compute; reflexivity.
Defined.

(** C9 without that condition does not hold. On a configuration whose
    [exampleOption] is an accessor the write calls its setter, and the key
    [other] of the object, which was not there, now holds the value. *)
Lemma setter_frame_setter :
  ∃ σ',
    Service.set_exampleOption (F := counting_code) 1%positive
      (VString "new-value") (constructed (VRef 1%positive) counting_store).2
    = Some (Normal (), σ')
    ∧ (props <$> heap (constructed (VRef 1%positive) counting_store).2
                 !! 1%positive) ≫= (.!! "other")
      = None
    ∧ (props <$> heap σ' !! 1%positive) ≫= (.!! "other")
      = Some (Data (VString "new-value") true).
Proof. eexists. split_and!; vm_compute; reflexivity. Qed.

(** C10 (the two files agree on the getter). The getter of the second
    source file and the getter of the full service give the same completion
    and the same store for every receiver in every store, and so do
    construction followed by a read, for every value supplied as the
    configuration. *)
Theorem variant_getter_agrees `{F : Foreign} (this : loc) (cfg : value)
    (σ : state) :
  Variant.get_exampleOption this σ = Service.get_exampleOption this σ
  ∧ (let* s := Variant.constructor cfg in Variant.get_exampleOption s) σ
    = (let* s := Service.constructor cfg in Service.get_exampleOption s) σ.
Proof. split; reflexivity. Qed.

(** * Further properties of the two classes *)

(** ** Construction *)

(** X1 (what construction does). For every value supplied, [null] and
    [undefined] included, the constructor returns normally with an instance
    that did not exist before and now holds that value; the value is written
    to the console once, after what was there; no object and no other
    instance is touched. *)
Theorem constructor_effect (cfg : value) (σ : state) :
  ∃ this σ',
    Service.constructor cfg σ = Some (Normal this, σ')
    ∧ services σ !! this = None
    ∧ services σ' = <[this := Instance cfg]> (services σ)
    ∧ heap σ' = heap σ
    ∧ console σ' = console σ ++ [cfg].
Proof.
  exists (constructed cfg σ).1, (constructed cfg σ).2.
  split; [apply constructor_constructed|].
  split; [apply constructed_fresh|]. done.
Qed.

Lemma constructed_twice_first (σ : state) (c1 c2 : value) :
  services (constructed c2 (constructed c1 σ).2).2 !! (constructed c1 σ).1
  = Some (Instance c1).
Proof.
  pose proof (constructed_held σ c1) as Hheld.
  pose proof (constructed_fresh (constructed c1 σ).2 c2) as Hfresh.
  change (services (constructed c2 (constructed c1 σ).2).2)
    with (<[(constructed c2 (constructed c1 σ).2).1 := Instance c2]>
            (services (constructed c1 σ).2)).
  rewrite lookup_insert_ne; [done|]. intros Heq. congruence.
Qed.

(** X2 (instances are independent). Two constructions one after the other
    give two different instances, each holding the value it was given, and
    the console has the two values in the order of construction. *)
Theorem constructor_twice (c1 c2 : value) (σ : state) :
  ∃ s1 s2 σ',
    (let* a := Service.constructor c1 in
     let* b := Service.constructor c2 in
     ret (a, b)) σ = Some (Normal (s1, s2), σ')
    ∧ s1 ≠ s2
    ∧ services σ' !! s1 = Some (Instance c1)
    ∧ services σ' !! s2 = Some (Instance c2)
    ∧ heap σ' = heap σ
    ∧ console σ' = console σ ++ [c1; c2].
Proof.
  set (s1 := (constructed c1 σ).1). set (σ1 := (constructed c1 σ).2).
  set (s2 := (constructed c2 σ1).1). set (σ2 := (constructed c2 σ1).2).
  assert (s1 ≠ s2) as Hne.
  { intros Heq. pose proof (constructed_fresh σ1 c2) as Hfresh.
    fold s2 in Hfresh. rewrite <-Heq in Hfresh.
    pose proof (constructed_held σ c1) as Hheld. fold s1 σ1 in Hheld.
    congruence. }
  exists s1, s2, σ2. split.
  { rewrite (bind_normal σ _ _ _ _ (constructor_constructed σ c1)).
    fold s1 σ1.
    by rewrite (bind_normal σ1 _ _ _ _ (constructor_constructed σ1 c2)). }
  split; [done|].
  split; [apply constructed_twice_first|].
  split; [apply (constructed_held σ1 c2)|].
  split; [done|]. simpl. by rewrite <-app_assoc.
Qed.

(** ** Writes *)

Lemma set_heap_id (σ : state) (l : loc) (C : object) :
  heap σ !! l = Some C → set_heap <[l := C]> σ = σ.
Proof.
  intros Hl. destruct σ. unfold set_heap. simpl in *. f_equal.
  by apply insert_id.
Qed.

Lemma set_heap_set_heap (σ : state) (l : loc) (C1 C2 : object) :
  set_heap <[l := C2]> (set_heap <[l := C1]> σ) = set_heap <[l := C2]> σ.
Proof. unfold set_heap. simpl. f_equal. apply insert_insert_eq. Qed.

Lemma with_property_twice (C : object) (k : string) (p1 p2 : property) :
  with_property (with_property C k p1) k p2 = with_property C k p2.
Proof. unfold with_property. simpl. f_equal. apply insert_insert_eq. Qed.

Lemma with_property_id (C : object) (k : string) (p : property) :
  props C !! k = Some p → with_property C k p = C.
Proof.
  intros Hp. destruct C. unfold with_property. simpl in *. f_equal.
  by apply insert_id.
Qed.


(** X3 (the last write wins). Where a write of [exampleOption] on the held
    configuration calls no setter of the caller, two writes in a row through
    the setter of one receiver come to the same as the second alone: the
    same completion, the same store. *)
Theorem set_set `{F : Foreign} (this : loc) (v1 v2 : value) (σ : state) :
  (∀ l q, services σ !! this = Some (Instance (VRef l)) →
          lookup_property (heap σ) l "exampleOption" = Some q →
          setter_of q = None) →
  (Service.set_exampleOption this v1 >> Service.set_exampleOption this v2) σ
  = Service.set_exampleOption this v2 σ.
Proof.
  intros Hquiet.
  destruct (services σ !! this) as [[cfg]|] eqn:Hthis; last first.
  { unfold Service.set_exampleOption, bind, read_injectedConfig.
    by rewrite Hthis. }
  destruct cfg as [| | | | |l];
    try (erewrite bind_throw;
         by rewrite (set_exampleOption_held σ this _ Hthis)).
  destruct (lookup_property (heap σ) l "exampleOption") as [q|] eqn:Hq;
    last first.
  { unfold bind at 1. rewrite !(set_exampleOption_held σ this _ Hthis).
    simpl. unfold assignment_to. rewrite Hq.
    by destruct (heap σ !! l). }
  specialize (Hquiet l q eq_refl Hq).
  destruct (set_property_quiet σ l "exampleOption" q v1 Hq Hquiet)
    as [Hthrow | (C & Hl & Ha & Hstore)].
  - erewrite bind_throw
      by (by rewrite (set_exampleOption_held σ this _ Hthis)).
    rewrite (set_exampleOption_held σ this _ Hthis).
    destruct (assignment_to_quiet _ _ _ _ Hq Hquiet) as [Ha | Ha].
    + destruct (assignment_to_there _ _ _ _ Ha) as [C Hl].
      by rewrite (set_property_stores σ l _ C v1 Hl Ha) in Hthrow.
    + by rewrite set_property_refused.
  - erewrite bind_normal
      by (by rewrite (set_exampleOption_held σ this _ Hthis)).
    rewrite (set_exampleOption_held σ this _ Hthis).
    rewrite (set_property_stores σ l _ C v2 Hl Ha).
    erewrite (set_exampleOption_held _ this (VRef l)) by done.
    erewrite set_property_stores;
      [| apply lookup_insert_eq | by apply stored_assignment].
    by rewrite set_heap_set_heap, with_property_twice.
Qed.

Lemma set_set_scenario :
  (Service.set_exampleOption (F := counting_code) 1%positive (VString "a") >>
   Service.set_exampleOption (F := counting_code) 1%positive
     (VString "new-value")) shared_store
  = Service.set_exampleOption (F := counting_code) 1%positive
      (VString "new-value") shared_store.
Proof.
  apply (set_set (F := counting_code)).
  intros l q [= <-]. vm_compute. by intros [= <-].
Defined.

(** X4 (writing back the value held). On an instance whose configuration
    object has [v] as its own writable [exampleOption], writing [v] returns
    normally and changes nothing at all. *)
Theorem set_same `{F : Foreign} (σ : state) (this l : loc) (C : object)
    (v : value) :
  services σ !! this = Some (Instance (VRef l)) →
  heap σ !! l = Some C →
  props C !! "exampleOption" = Some (Data v true) →
  Service.set_exampleOption this v σ = Some (Normal (), σ).
Proof.
  intros Hthis Hl Hv.
  erewrite set_configured; [| done | done | by eapply assignment_to_own_writable].
  by rewrite with_property_id, set_heap_id.
Qed.

Lemma set_same_scenario :
  Service.set_exampleOption (F := counting_code) 1%positive
    (VString "custom-value") shared_store
  = Some (Normal (), shared_store).
Proof.
  apply (set_same shared_store 1%positive 1%positive custom_config);
    vm_compute; reflexivity.
Defined.

(** X5 (a write makes the key). On an instance whose configuration object
    may be extended and has no [exampleOption], neither its own nor one it
    inherits, reading the property and assigning what was read returns
    normally, and the getter gives [undefined] as before; but the object is
    no longer what it was: it now has the key, holding [undefined]. *)
Theorem write_back_makes_key `{F : Foreign} (σ : state) (this l : loc)
    (C : object) :
  services σ !! this = Some (Instance (VRef l)) →
  heap σ !! l = Some C →
  lookup_property (heap σ) l "exampleOption" = Some None →
  extensible C = true →
  ∃ σ' C',
    (let* v := Service.get_exampleOption this in
     Service.set_exampleOption this v) σ = Some (Normal (), σ')
    ∧ heap σ' !! l = Some C'
    ∧ C' ≠ C
    ∧ props C !! "exampleOption" = None
    ∧ props C' !! "exampleOption" = Some (Data VUndefined true)
    ∧ dom (props C') = {[ "exampleOption" ]} ∪ dom (props C)
    ∧ Service.get_exampleOption this σ' = Some (Normal VUndefined, σ').
Proof.
  intros Hthis Hl Hq Hext.
  assert (props C !! "exampleOption" = None) as Hown.
  { revert Hq. unfold lookup_property. rewrite find_property_unfold, Hl.
    by destruct (props C !! "exampleOption"). }
  assert (assignment_to (heap σ) l "exampleOption" = Some Stores) as Ha.
  { unfold assignment_to. rewrite Hl, Hq, Hext. by rewrite orb_true_r. }
  eexists _, _. split.
  { rewrite (bind_normal σ _ _ _ _ (get_configured σ this l Hthis None Hq eq_refl)).
    simpl. by apply set_configured. }
  split; [apply lookup_insert_eq|].
  split.
  { intros Heq. apply (f_equal (λ o, props o !! "exampleOption")) in Heq.
    simpl in Heq. rewrite lookup_insert_eq in Heq. congruence. }
  split; [done|].
  split; [apply lookup_insert_eq|].
  split; [apply dom_insert_L|].
  apply (get_stored σ this l C VUndefined Hthis).
Qed.

Lemma write_back_makes_key_scenario :
  ∃ σ' C',
    (let* v := Service.get_exampleOption (F := counting_code) 2%positive in
     Service.set_exampleOption (F := counting_code) 2%positive v)
      two_configs_store
    = Some (Normal (), σ')
    ∧ heap σ' !! 2%positive = Some C'
    ∧ C' ≠ literal ∅
    ∧ props (literal ∅) !! "exampleOption" = None
    ∧ props C' !! "exampleOption" = Some (Data VUndefined true)
    ∧ dom (props C') = {[ "exampleOption" ]} ∪ dom (props (literal ∅))
    ∧ Service.get_exampleOption (F := counting_code) 2%positive σ'
      = Some (Normal VUndefined, σ').
Proof.
  apply (write_back_makes_key two_configs_store 2%positive 2%positive
           (literal ∅));
    vm_compute; reflexivity.
Defined.

(** X6 (a write and its undoing). On an instance whose configuration object
    has [old] as its own writable [exampleOption], writing any value and
    then writing [old] again leaves the store exactly as it was. *)
Theorem set_then_restore `{F : Foreign} (σ : state) (this l : loc)
    (C : object) (old v : value) :
  services σ !! this = Some (Instance (VRef l)) →
  heap σ !! l = Some C →
  props C !! "exampleOption" = Some (Data old true) →
  (Service.set_exampleOption this v >> Service.set_exampleOption this old) σ
  = Some (Normal (), σ).
Proof.
  intros Hthis Hl Hold.
  assert (assignment_to (heap σ) l "exampleOption" = Some Stores) as Ha
    by (by eapply assignment_to_own_writable).
  rewrite (bind_normal σ _ _ _ _ (set_configured σ this l Hthis C v Hl Ha)).
  erewrite (set_exampleOption_held _ this (VRef l)) by done.
  erewrite set_property_stores;
    [| apply lookup_insert_eq | by apply stored_assignment].
  by rewrite set_heap_set_heap, with_property_twice, with_property_id,
    set_heap_id.
Qed.

Lemma set_then_restore_scenario :
  (Service.set_exampleOption (F := counting_code) 1%positive
     (VString "new-value") >>
   Service.set_exampleOption (F := counting_code) 1%positive
     (VString "custom-value")) shared_store
  = Some (Normal (), shared_store).
Proof.
  apply (set_then_restore shared_store 1%positive 1%positive custom_config);
    vm_compute; reflexivity.
Defined.

(** X7 (a primitive as configuration). When the value supplied is a
    boolean, a number or a string, construction succeeds; every read gives
    [undefined]; every write throws [TypeError] and changes nothing, so no
    value written is ever read back. *)
Theorem primitive_configuration `{F : Foreign} (cfg v : value) (σ : state) :
  primitive cfg →
  ∃ this σ1,
    Service.constructor cfg σ = Some (Normal this, σ1)
    ∧ Service.get_exampleOption this σ1 = Some (Normal VUndefined, σ1)
    ∧ Service.getExampleOption this σ1 = Some (Normal VUndefined, σ1)
    ∧ Service.set_exampleOption this v σ1 = Some (Throw TypeError, σ1).
Proof.
  intros Hprim. eexists _, _. split; [apply constructor_constructed|].
  unfold Service.getExampleOption.
  rewrite constructed_get, constructed_set. by destruct cfg.
Qed.

Lemma primitive_configuration_scenario :
  ∃ this σ1,
    Service.constructor (VString "custom-value") custom_store
    = Some (Normal this, σ1)
    ∧ Service.get_exampleOption (F := counting_code) this σ1
      = Some (Normal VUndefined, σ1)
    ∧ Service.getExampleOption (F := counting_code) this σ1
      = Some (Normal VUndefined, σ1)
    ∧ Service.set_exampleOption (F := counting_code) this
        (VString "new-value") σ1
      = Some (Throw TypeError, σ1).
Proof.
  apply (primitive_configuration (VString "custom-value")). exact I.
Defined.

(** X8 (services over different objects do not interfere). When two
    instances hold two different configuration objects, each with its own
    writable [exampleOption], a write through one leaves what the other
    reads as it was, and two writes, one through each, give the same store
    in either order. *)
Theorem writes_to_distinct_objects `{F : Foreign} (σ : state)
    (s1 s2 l1 l2 : loc) (C1 C2 : object) (a1 a2 v1 v2 : value) :
  services σ !! s1 = Some (Instance (VRef l1)) →
  services σ !! s2 = Some (Instance (VRef l2)) →
  l1 ≠ l2 →
  heap σ !! l1 = Some C1 →
  heap σ !! l2 = Some C2 →
  props C1 !! "exampleOption" = Some (Data a1 true) →
  props C2 !! "exampleOption" = Some (Data a2 true) →
  ∃ σ1 σ12,
    Service.set_exampleOption s1 v1 σ = Some (Normal (), σ1)
    ∧ Service.get_exampleOption s2 σ1 = Some (Normal a2, σ1)
    ∧ (Service.set_exampleOption s1 v1 >> Service.set_exampleOption s2 v2) σ
      = Some (Normal (), σ12)
    ∧ (Service.set_exampleOption s2 v2 >> Service.set_exampleOption s1 v1) σ
      = Some (Normal (), σ12).
Proof.
  intros Hs1 Hs2 Hne Hl1 Hl2 Hp1 Hp2.
  pose proof (assignment_to_own_writable _ _ _ _ _ Hl1 Hp1) as Ha1.
  pose proof (assignment_to_own_writable _ _ _ _ _ Hl2 Hp2) as Ha2.
  pose proof (set_configured σ s1 l1 Hs1 C1 v1 Hl1 Ha1) as Hset1.
  pose proof (set_configured σ s2 l2 Hs2 C2 v2 Hl2 Ha2) as Hset2.
  set (σ1 := set_heap <[l1 := with_property C1 "exampleOption" (Data v1 true)]> σ)
    in *.
  set (σ2 := set_heap <[l2 := with_property C2 "exampleOption" (Data v2 true)]> σ)
    in *.
  assert (heap σ1 !! l2 = Some C2) as Hl12
    by (subst σ1; simpl; by rewrite lookup_insert_ne).
  assert (heap σ2 !! l1 = Some C1) as Hl21
    by (subst σ2; simpl; by rewrite lookup_insert_ne).
  exists σ1,
    (set_heap <[l2 := with_property C2 "exampleOption" (Data v2 true)]> σ1).
  split; [exact Hset1|].
  split; [by apply (get_own_data σ1 s2 l2 Hs2 C2 a2 true)|].
  rewrite (bind_normal σ _ _ _ _ Hset1), (bind_normal σ _ _ _ _ Hset2).
  split.
  { apply (set_configured σ1 s2 l2 Hs2 C2); [done|].
    by apply (assignment_to_own_writable _ _ _ C2 a2). }
  rewrite (set_configured σ2 s1 l1 Hs1 C1 v1 Hl21
             (assignment_to_own_writable _ _ _ C1 a1 Hl21 Hp1)).
  subst σ1 σ2. unfold set_heap. simpl.
  by rewrite (insert_insert_ne (heap σ) l2 l1) by congruence.
Qed.

Lemma writes_to_distinct_objects_scenario :
  ∃ σ1 σ12,
    Service.set_exampleOption (F := counting_code) 1%positive
      (VString "new-value") two_custom_store = Some (Normal (), σ1)
    ∧ Service.get_exampleOption (F := counting_code) 2%positive σ1
      = Some (Normal (VString "other-value"), σ1)
    ∧ (Service.set_exampleOption (F := counting_code) 1%positive
         (VString "new-value") >>
       Service.set_exampleOption (F := counting_code) 2%positive
         (VBool true)) two_custom_store
      = Some (Normal (), σ12)
    ∧ (Service.set_exampleOption (F := counting_code) 2%positive
         (VBool true) >>
       Service.set_exampleOption (F := counting_code) 1%positive
         (VString "new-value")) two_custom_store
      = Some (Normal (), σ12).
Proof.
  apply (writes_to_distinct_objects two_custom_store 1%positive 2%positive
           1%positive 2%positive custom_config other_config
           (VString "custom-value") (VString "other-value"));
    [vm_compute; reflexivity | vm_compute; reflexivity | lia
    | vm_compute; reflexivity | vm_compute; reflexivity
    | vm_compute; reflexivity | vm_compute; reflexivity].
Defined.

(** ** Sequences of invocations *)

(** X9 (what invocations never touch). In a store where the objects held
    by the instances call no code of the caller for [exampleOption], every
    sequence of accessor invocations on existing instances runs to its end
    with one completion per invocation; it writes nothing to the console,
    and every object keeps its prototype, its extensibility and every
    property other than [exampleOption]. *)
Theorem runs_touch_only_exampleOption `{F : Foreign} (σ : state)
    (ops : list (loc * op)) :
  well_formed σ →
  Forall (λ c, is_Some (services σ !! c.1)) ops →
  ∃ rs σ',
    run ops σ = Some (rs, σ')
    ∧ length rs = length ops
    ∧ console σ' = console σ
    ∧ ∀ l, rest <$> heap σ' !! l = rest <$> heap σ !! l.
Proof.
  intros Hwf Hops.
  destruct (run_quiet ops σ Hwf Hops)
    as (rs & σ' & Hrun & Hlen & _ & _ & Hc & _ & Hrest).
  by exists rs, σ'.
Qed.

Lemma shared_store_well_formed : well_formed shared_store.
Proof.
  apply constructed_well_formed; [apply constructed_well_formed|];
    [apply custom_store_well_formed | |];
    intros l [= <-]; (eexists; split; [vm_compute; reflexivity|]); by split.
Qed.

Lemma runs_touch_only_exampleOption_scenario :
  ∃ rs σ',
    run (F := counting_code)
      [(1%positive, Put (VString "new-value")); (2%positive, GetMethod)]
      shared_store = Some (rs, σ')
    ∧ length rs = 2
    ∧ console σ' = console shared_store
    ∧ ∀ l, rest <$> heap σ' !! l = rest <$> heap shared_store !! l.
Proof.
  apply (runs_touch_only_exampleOption (F := counting_code) shared_store
           [(1%positive, Put (VString "new-value")); (2%positive, GetMethod)]).
  - exact shared_store_well_formed.
  - repeat constructor; vm_compute; by eexists.
Defined.

(** X10 (one instance as a cell). On an instance that holds a
    configuration object on which the assignment stores, every sequence of
    invocations completes normally at every step, and a read afterwards
    gives the last value assigned in the sequence, or, when nothing was
    assigned, the value the object had or inherited ([undefined] where it
    had none). *)
Theorem last_write_read `{F : Foreign} (ops : list op) :
  ∀ (σ : state) (this l : loc) (q : option property),
  services σ !! this = Some (Instance (VRef l)) →
  assignment_to (heap σ) l "exampleOption" = Some Stores →
  lookup_property (heap σ) l "exampleOption" = Some q →
  ∃ rs σ',
    run (pair this <$> ops) σ = Some (rs, σ')
    ∧ Forall (λ r, ∃ v, r = Normal v) rs
    ∧ Service.get_exampleOption this σ'
      = Some (Normal (default (value_of q) (last (written ops))), σ').
Proof.
  induction ops as [|o ops IH]; intros σ this l q Hthis Ha Hq.
  { exists [], σ. split; [done|]. split; [done|].
    destruct (assignment_to_stores_found _ _ _ Ha) as (q' & Hq' & Hg & _).
    assert (q' = q) as -> by congruence.
    by apply (get_configured σ this l Hthis q). }
  rewrite fmap_cons. cbn [run].
  destruct (assignment_to_stores_found _ _ _ Ha) as (q' & Hq' & Hg & _).
  assert (q' = q) as -> by congruence.
  destruct (assignment_to_there _ _ _ _ Ha) as [C Hl].
  assert (∃ v q1 σ1,
    call this o σ = Some (Normal v, σ1)
    ∧ services σ1 !! this = Some (Instance (VRef l))
    ∧ assignment_to (heap σ1) l "exampleOption" = Some Stores
    ∧ lookup_property (heap σ1) l "exampleOption" = Some q1
    ∧ default (value_of q1) (last (written ops))
      = default (value_of q) (last (written (o :: ops))))
    as (v & q1 & σ1 & -> & Hthis1 & Ha1 & Hq1 & Hlast).
  { destruct o as [|w|]; cbn [call]; unfold Service.getExampleOption.
    - eexists _, q, σ. by rewrite (get_configured σ this l Hthis q Hq Hg).
    - exists w, (Some (Data w true)),
        (set_heap <[l := with_property C "exampleOption" (Data w true)]> σ).
      split; [by rewrite (bind_normal σ _ _ _ _
                            (set_configured σ this l Hthis C w Hl Ha))|].
      split; [done|].
      split; [by apply stored_assignment|].
      split; [by apply stored_own|]. simpl.
      change (written (Put w :: ops)) with (w :: written ops).
      rewrite last_cons. by destruct (last (written ops)).
    - eexists _, q, σ. by rewrite (get_configured σ this l Hthis q Hq Hg). }
  destruct (IH σ1 this l q1 Hthis1 Ha1 Hq1) as (rs & σ' & -> & Hrs & Hget).
  exists (Normal v :: rs), σ'. split; [done|].
  split; [constructor; eauto|]. by rewrite <-Hlast.
Qed.

Lemma last_write_read_scenario :
  ∃ rs σ',
    run (F := counting_code)
      (pair 1%positive <$> [Get; Put (VString "a"); GetMethod;
                            Put (VString "new-value")]) shared_store
    = Some (rs, σ')
    ∧ Forall (λ r, ∃ v, r = Normal v) rs
    ∧ Service.get_exampleOption (F := counting_code) 1%positive σ'
      = Some (Normal (default
                        (value_of (Some (Data (VString "custom-value") true)))
                        (last (written [Get; Put (VString "a"); GetMethod;
                                        Put (VString "new-value")]))), σ').
Proof.
  apply (last_write_read (F := counting_code) _ shared_store 1%positive
           1%positive);
    vm_compute; reflexivity.
Defined.

(** ** The class of the second source file *)

(** X11 (the two classes share the object). An instance of the second
    file's class and an instance of the full class, constructed over the
    same configuration object, on which the assignment stores: a write
    through the setter of the full class is what the getter of the other
    class then reads. *)
Theorem variant_reads_service_write `{F : Foreign} (σ : state) (l : loc)
    (v : value) :
  assignment_to (heap σ) l "exampleOption" = Some Stores →
  ∃ σ',
    (let* a := Variant.constructor (VRef l) in
     let* b := Service.constructor (VRef l) in
     Service.set_exampleOption b v >>
     Variant.get_exampleOption a) σ = Some (Normal v, σ').
Proof.
  intros Ha. destruct (assignment_to_there _ _ _ _ Ha) as [C Hl]. eexists.
  change (Variant.constructor (VRef l)) with (Service.constructor (VRef l)).
  rewrite (bind_normal σ _ _ _ _ (constructor_constructed σ (VRef l))).
  set (a := (constructed (VRef l) σ).1).
  set (σ1 := (constructed (VRef l) σ).2).
  rewrite (bind_normal σ1 _ _ _ _ (constructor_constructed σ1 (VRef l))).
  set (b := (constructed (VRef l) σ1).1).
  set (σ2 := (constructed (VRef l) σ1).2).
  assert (services σ2 !! a = Some (Instance (VRef l))) as Hheld_a
    by apply constructed_twice_first.
  assert (services σ2 !! b = Some (Instance (VRef l))) as Hheld_b
    by apply constructed_held.
  assert (heap σ2 !! l = Some C) as Hl2 by done.
  assert (assignment_to (heap σ2) l "exampleOption" = Some Stores) as Ha2
    by done.
  rewrite (bind_normal σ2 _ _ _ _ (set_configured σ2 b l Hheld_b C v Hl2 Ha2)).
  change (Variant.get_exampleOption a) with (Service.get_exampleOption a).
  apply (get_stored σ2 a l C v Hheld_a).
Qed.

Lemma variant_reads_service_write_scenario :
  ∃ σ',
    (let* a := Variant.constructor (VRef 1%positive) in
     let* b := Service.constructor (VRef 1%positive) in
     Service.set_exampleOption (F := counting_code) b (VString "new-value") >>
     Variant.get_exampleOption (F := counting_code) a) custom_store
    = Some (Normal (VString "new-value"), σ').
Proof.
  apply (variant_reads_service_write custom_store 1%positive).
  vm_compute. reflexivity.
Defined.

(** X12 (the second file's class without a configuration). Constructed
    with [null] or [undefined], the class of the second file is constructed
    all the same, writing that value to the console, and its getter then
    throws [TypeError]; no object is touched. *)
Theorem variant_missing_configuration `{F : Foreign} (cfg : value)
    (σ : state) :
  absent cfg →
  ∃ σ',
    (let* s := Variant.constructor cfg in Variant.get_exampleOption s) σ
    = Some (Throw TypeError, σ')
    ∧ console σ' = console σ ++ [cfg]
    ∧ heap σ' = heap σ.
Proof.
  intros Habsent. exists (constructed cfg σ).2. split; [|done].
  change (Variant.constructor cfg) with (Service.constructor cfg).
  rewrite construct_then.
  change (Variant.get_exampleOption (constructed cfg σ).1)
    with (Service.get_exampleOption (constructed cfg σ).1).
  rewrite constructed_get. by apply get_property_absent.
Qed.

Lemma variant_missing_configuration_scenario :
  ∃ σ',
    (let* s := Variant.constructor VUndefined in
     Variant.get_exampleOption (F := counting_code) s) custom_store
    = Some (Throw TypeError, σ')
    ∧ console σ' = console custom_store ++ [VUndefined]
    ∧ heap σ' = heap custom_store.
Proof.
  apply (variant_missing_configuration VUndefined custom_store). by right.
Defined.
